(** * Hoppscotch: the Firestore access rules and the GraphQL query editor

    Two artefacts of the repository are embedded here.

    - [Firestore]: the rule tree of [firestore.rules], as data, together with
      the evaluation of a request against a rule tree.
    - [QueryEditor]: the data and the methods of
      [components/graphql/QueryEditor.vue] as a state-and-exception monad
      over the component's data.  The GraphQL parser, validator, printer and
      language service, and the text widget's change notifications, are
      collaborators of the component and are Section variables.  Of the
      theme only the name computed by [defineTheme] is modelled; applying
      theme, options, styles and font size is the widget's business and is
      left out. *)

From Stdlib Require Import String Ascii List ZArith Bool Lia.
Import ListNotations.

Local Open Scope string_scope.
Local Open Scope Z_scope.

(* ===================================================================== *)
(** ** firestore.rules *)
(* ===================================================================== *)

Module Firestore.

(** A segment of a [match] path: a literal, a single-segment wildcard
    [{name}], or the recursive wildcard [{name=**}]. *)
Inductive Segment : Type :=
| Lit (s : string)
| Wild (name : string)
| RecWild (name : string).

(** The methods an [allow] statement can list; [read] and [write] are the
    rules language's shorthands for get/list and create/update/delete. *)
Inductive Method : Type :=
| read | write | get | list_ | create | update | delete.

(** The operation of an incoming request. *)
Inductive Operation : Type :=
| OpGet | OpList | OpCreate | OpUpdate | OpDelete.

Definition covers (m : Method) (op : Operation) : bool :=
  match m, op with
  | read, OpGet | read, OpList => true
  | write, OpCreate | write, OpUpdate | write, OpDelete => true
  | get, OpGet | list_, OpList => true
  | create, OpCreate | update, OpUpdate | delete, OpDelete => true
  | _, _ => false
  end.

(** The conditions of the file: [request.auth.uid != null] and
    [request.auth.uid == <wildcard variable>]. *)
Inductive Expr : Type :=
| AuthUid
| Null
| PathVar (name : string)
| Eq (a b : Expr)
| Neq (a b : Expr).

Inductive Value : Type :=
| VNull
| VString (s : string)
| VBool (b : bool).

Record Request : Type := {
  auth : option string;      (* request.auth.uid, None when unauthenticated *)
  path : list string;        (* segments of the document's full path *)
  op : Operation
}.

Definition Env : Type := list (string * string).

Fixpoint lookup (x : string) (env : Env) : option string :=
  match env with
  | [] => None
  | (y, v) :: env' => if String.eqb x y then Some v else lookup x env'
  end.

Definition value_eqb (a b : Value) : bool :=
  match a, b with
  | VNull, VNull => true
  | VString s, VString t => String.eqb s t
  | VBool x, VBool y => Bool.eqb x y
  | _, _ => false
  end.

(** Evaluation of a condition; [None] is an evaluation error (reading
    [uid] of a null [request.auth], an unbound variable). *)
Fixpoint eval (env : Env) (r : Request) (e : Expr) : option Value :=
  match e with
  | AuthUid => option_map VString (auth r)
  | Null => Some VNull
  | PathVar x => option_map VString (lookup x env)
  | Eq a b =>
      match eval env r a, eval env r b with
      | Some u, Some v => Some (VBool (value_eqb u v))
      | _, _ => None
      end
  | Neq a b =>
      match eval env r a, eval env r b with
      | Some u, Some v => Some (VBool (negb (value_eqb u v)))
      | _, _ => None
      end
  end.

Record Allow : Type := {
  methods : list Method;
  condition : Expr
}.

(** An [allow] statement grants a request when it lists a method covering
    the operation and its condition evaluates to [true]; an error in the
    condition grants nothing. *)
Definition grants (env : Env) (r : Request) (a : Allow) : bool :=
  existsb (fun m => covers m (op r)) (methods a) &&
  match eval env r (condition a) with
  | Some (VBool true) => true
  | _ => false
  end.

Fixpoint join (segs : list string) : string :=
  match segs with
  | [] => ""
  | [s] => s
  | s :: rest => s ++ "/" ++ join rest
  end.

(** Matching a pattern against the front of a path: the bindings and the
    segments left over.  The recursive wildcard takes one or more
    segments, all that remain. *)
Fixpoint match_prefix (pat : list Segment) (p : list string) (env : Env)
  : option (Env * list string) :=
  match pat with
  | [] => Some (env, p)
  | Lit s :: pat' =>
      match p with
      | seg :: p' => if String.eqb s seg then match_prefix pat' p' env else None
      | [] => None
      end
  | Wild x :: pat' =>
      match p with
      | seg :: p' => match_prefix pat' p' ((x, seg) :: env)
      | [] => None
      end
  | RecWild x :: pat' =>
      match p, pat' with
      | _ :: _, [] => Some ((x, join p) :: env, [])
      | _, _ => None
      end
  end.

#[warnings="-register-all"]
Inductive MatchBlock : Type :=
| Block (pattern : list Segment) (allows : list Allow) (nested : list MatchBlock).

(** A request is allowed by a block when the block's pattern matches the
    front of the path and either the path ends there and one of the
    block's [allow] statements grants it, or a nested block allows the
    rest.  Every matching [allow] counts: overlapping [match] statements
    are alternatives, and one grant suffices. *)
Fixpoint allowed (b : MatchBlock) (env : Env) (p : list string) (r : Request) : bool :=
  match b with
  | Block pattern allows nested =>
      match match_prefix pattern p env with
      | None => false
      | Some (env', rest) =>
          (match rest with
           | [] => existsb (grants env' r) allows
           | _ :: _ => false
           end)
          || (fix any (bs : list MatchBlock) : bool :=
                match bs with
                | [] => false
                | b' :: bs' => allowed b' env' rest r || any bs'
                end) nested
      end
  end.

Inductive Decision : Type := allow | deny.

Definition evaluate (rules : MatchBlock) (r : Request) : Decision :=
  if allowed rules [] (path r) r then allow else deny.

(** [match /{document=**} { allow read, write: if request.auth.uid != null; }] *)
Definition catch_all : MatchBlock :=
  Block [RecWild "document"]
        [ {| methods := [read; write]; condition := Neq AuthUid Null |} ]
        [].

(** [match /users/{userId} { ... }] *)
Definition user_document : MatchBlock :=
  Block [Lit "users"; Wild "userId"]
        [ {| methods := [read; update; delete];
             condition := Eq AuthUid (PathVar "userId") |};
          {| methods := [create]; condition := Neq AuthUid Null |} ]
        [].

(** [match /databases/{database}/documents { ... }] *)
Definition rules : MatchBlock :=
  Block [Lit "databases"; Wild "database"; Lit "documents"]
        []
        [catch_all; user_document].

(** The file without its first block. *)
Definition rules_without_catch_all : MatchBlock :=
  Block [Lit "databases"; Wild "database"; Lit "documents"]
        []
        [user_document].

(** The full path of a document of database [db]. *)
Definition document (db : string) (p : list string) : list string :=
  "databases" :: db :: "documents" :: p.

End Firestore.

(* ===================================================================== *)
(** ** components/graphql/QueryEditor.vue *)
(* ===================================================================== *)

Module QueryEditor.

(** A source location of a GraphQL error: 1-based [line] and [column]. *)
Module Loc.
Record t : Type := { line : Z; column : Z }.
End Loc.

(** An annotation of the editor session, as passed to [setAnnotations]. *)
Module Annotation.
Record t : Type := { row : Z; column : Z; text : string; type : string }.
End Annotation.

(** The cursor position handed to the language service. *)
Module Position.
Record t : Type := { line : Z; character : Z }.
End Position.

(** What a [catch] clause sees of a thrown value: [e.locations] (absent
    on anything that is not a located GraphQL error) and [e.message]. *)
Record JsError : Type := {
  locations : option (list Loc.t);
  message : string
}.

(** The result of calling a collaborator: a value, or a thrown error. *)
Inductive Completion (A : Type) : Type :=
| Normal (a : A)
| Throw (e : JsError).
Arguments Normal {A} a.
Arguments Throw {A} e.

(** A suggestion of the language service, and the completion item the
    widget is given for it. *)
Record Suggestion : Type := { label : string; detail : option string }.
Record CompletionItem : Type := {
  name : string;
  value : string;
  score : Z;
  meta : option string
}.

(** The [TypeError] of reading a property of [undefined]. *)
Definition TypeError (property : string) : JsError :=
  {| locations := None;
     message := "Cannot read properties of undefined (reading " ++ property ++ ")" |}.

(** [locations[0]] followed by a property read: fails when [locations]
    is undefined and when it is an empty array. *)
Definition first_location (locs : option (list Loc.t)) : Completion Loc.t :=
  match locs with
  | None => Throw (TypeError "0")
  | Some [] => Throw (TypeError "line")
  | Some (l :: _) => Normal l
  end.

(** The object literal built in both branches of [parseContents]:
    [{ row: locations[0].line - 1, column: locations[0].column - 1,
       text: message, type: "error" }]. *)
Definition annotation_of (e : JsError) : Completion Annotation.t :=
  match first_location (locations e) with
  | Normal l =>
      Normal {| Annotation.row := Loc.line l - 1;
                Annotation.column := Loc.column l - 1;
                Annotation.text := message e;
                Annotation.type := "error" |}
  | Throw t => Throw t
  end.

(** [Array.prototype.map] with a callback that may throw: left to right,
    the first throw aborts the whole map. *)
Fixpoint map_throwing {A B : Type} (f : A -> Completion B) (l : list A)
  : Completion (list B) :=
  match l with
  | [] => Normal []
  | a :: l' =>
      match f a with
      | Throw e => Throw e
      | Normal b =>
          match map_throwing f l' with
          | Throw e => Throw e
          | Normal bs => Normal (b :: bs)
          end
      end
  end.

(** [({ label, detail }) => ({ name: label, value: label, score: 1.0,
    meta: detail })] *)
Definition completion_item (s : Suggestion) : CompletionItem :=
  {| name := label s; value := label s; score := 1; meta := detail s |}.

(** Whether [e.locations[0]] exists: [locations] is an array with a first
    element. *)
Definition located (e : JsError) : bool :=
  match locations e with
  | Some (_ :: _) => true
  | _ => false
  end.

(** **** [defineTheme] *)

(** The double quote character. *)
Definition quote : ascii := ascii_of_nat 34.

(** [str.replace(/c/g, empty)] for a one-character pattern [c]: every
    occurrence of [c] is dropped. *)
Fixpoint remove_all (c : ascii) (str : string) : string :=
  match str with
  | EmptyString => EmptyString
  | String a rest =>
      if Ascii.eqb a c then remove_all c rest
      else String a (remove_all c rest)
  end.

(** [strip]: three global replacements by the empty string in a row, of
    the hash sign, of the space and of the double quote. *)
Definition strip (str : string) : string :=
  remove_all quote (remove_all " " (remove_all "#" str)).

(** [defineTheme()]: [theme] is the prop ([None] for [null]; a string is
    truthy when it is not empty) and [editor_theme] is the computed style
    property [--editor-theme] of the document root. *)
Definition defineTheme (theme : option string) (editor_theme : string) : string :=
  match theme with
  | Some t => if (t =? "")%string then strip editor_theme else t
  | None => strip editor_theme
  end.

(** The characters [strip] keeps. *)
Definition kept (a : ascii) : bool :=
  negb (Ascii.eqb a "#" || Ascii.eqb a " " || Ascii.eqb a quote).

(** *** Sample collaborators

    A table of what graphql-js answers on a handful of inputs, used to run
    the component on concrete data. *)
Module Sample.

Definition nl : string := String (ascii_of_nat 10) EmptyString.

(** A parsed document, reduced to the one field it selects. *)
Definition Document : Type := string.

(** A schema: the fields of its query type, or a schema without one. *)
Inductive Schema : Type :=
| QueryFields (fields : list string)
| NoQueryType.

(** The printer's layout of a one-field selection. *)
Definition canonical (field : string) : string :=
  "{" ++ nl ++ "  " ++ field ++ nl ++ "}".

Definition syntax_error (l c : Z) (msg : string) : JsError :=
  {| locations := Some [ {| Loc.line := l; Loc.column := c |} ];
     message := msg |}.

Definition parse (content : string) : Completion Document :=
  if (content =? "{ a }")%string || (content =? canonical "a")%string then Normal "a"
  else if (content =? "{ b }")%string || (content =? canonical "b")%string then Normal "b"
  else if (content =? "{ a")%string
  then Throw (syntax_error 1 4 "Syntax Error: Expected Name, found <EOF>.")
  else Throw (syntax_error 1 1 "Syntax Error: Unexpected <EOF>.").

Definition print (doc : Document) : Completion string :=
  Normal (canonical doc).

Definition validate (schema : Schema) (doc : Document) : Completion (list JsError) :=
  match schema with
  | NoQueryType =>
      Throw {| locations := None; message := "Query root type must be provided." |}
  | QueryFields fields =>
      if existsb (String.eqb doc) fields then Normal []
      else Normal [ syntax_error 1 3 ("Cannot query field " ++ doc ++ " on type Query.") ]
  end.

Definition suggest (schema : Schema) (content : string) (pos : Position.t)
  : Completion (list Suggestion) :=
  match schema with
  | NoQueryType => Normal []
  | QueryFields fields =>
      Normal (map (fun f => {| label := f; detail := Some "String" |}) fields)
  end.

(** The widget signals one change, at the new content. *)
Definition setValue_changes (old new : string) : list string := [new].

End Sample.

Section Component.

(** The collaborators: [gql.parse], [gql.validate], [gql.print],
    [getAutocompleteSuggestions], and the buffer contents at which the
    widget signals [change] while [session.setValue] replaces one text by
    another. *)
Context {Document Schema : Type}.
Variable gql_parse : string -> Completion Document.
Variable gql_validate : Schema -> Document -> Completion (list JsError).
Variable gql_print : Document -> Completion string.
Variable getAutocompleteSuggestions :
  Schema -> string -> Position.t -> Completion (list Suggestion).
Variable setValue_changes : string -> string -> list string.

(** The component's [data()], with the widget's buffer and annotations,
    the pending timer of the debounced [parseContents] (with the argument
    of the call that armed it), and what the component has sent out:
    [$emit] events as (name, payload) and [$toast.error] message keys. *)
Record Component : Type := {
  buffer : string;
  annotations : list Annotation.t;
  cacheValue : string;
  validationSchema : option Schema;
  inDebounce : option string;
  emitted : list (string * string);
  toasts : list string
}.

Definition data : Component :=
  {| buffer := ""; annotations := []; cacheValue := "";
     validationSchema := None; inDebounce := None;
     emitted := []; toasts := [] |}.

Definition with_buffer (v : string) (c : Component) : Component :=
  {| buffer := v; annotations := annotations c; cacheValue := cacheValue c;
     validationSchema := validationSchema c; inDebounce := inDebounce c;
     emitted := emitted c; toasts := toasts c |}.

Definition with_annotations (a : list Annotation.t) (c : Component) : Component :=
  {| buffer := buffer c; annotations := a; cacheValue := cacheValue c;
     validationSchema := validationSchema c; inDebounce := inDebounce c;
     emitted := emitted c; toasts := toasts c |}.

Definition with_cacheValue (v : string) (c : Component) : Component :=
  {| buffer := buffer c; annotations := annotations c; cacheValue := v;
     validationSchema := validationSchema c; inDebounce := inDebounce c;
     emitted := emitted c; toasts := toasts c |}.

Definition with_validationSchema (s : option Schema) (c : Component) : Component :=
  {| buffer := buffer c; annotations := annotations c; cacheValue := cacheValue c;
     validationSchema := s; inDebounce := inDebounce c;
     emitted := emitted c; toasts := toasts c |}.

Definition with_inDebounce (t : option string) (c : Component) : Component :=
  {| buffer := buffer c; annotations := annotations c; cacheValue := cacheValue c;
     validationSchema := validationSchema c; inDebounce := t;
     emitted := emitted c; toasts := toasts c |}.

Definition with_emitted (e : list (string * string)) (c : Component) : Component :=
  {| buffer := buffer c; annotations := annotations c; cacheValue := cacheValue c;
     validationSchema := validationSchema c; inDebounce := inDebounce c;
     emitted := e; toasts := toasts c |}.

Definition with_toasts (t : list string) (c : Component) : Component :=
  {| buffer := buffer c; annotations := annotations c; cacheValue := cacheValue c;
     validationSchema := validationSchema c; inDebounce := inDebounce c;
     emitted := emitted c; toasts := t |}.

(** **** The monad of the component's methods

    A method runs on the component and either returns or throws; what it
    changed before throwing stays changed. *)
Inductive Outcome (A : Type) : Type :=
| Returned (a : A) (c : Component)
| Threw (e : JsError) (c : Component).
Arguments Returned {A} a c.
Arguments Threw {A} e c.

Definition M (A : Type) : Type := Component -> Outcome A.

Definition ret {A : Type} (a : A) : M A := fun c => Returned a c.

Definition bind {A B : Type} (m : M A) (k : A -> M B) : M B :=
  fun c =>
    match m c with
    | Returned a c' => k a c'
    | Threw e c' => Threw e c'
    end.

Definition try_catch {A : Type} (body : M A) (handler : JsError -> M A) : M A :=
  fun c =>
    match body c with
    | Returned a c' => Returned a c'
    | Threw e c' => handler e c'
    end.

Definition call {A : Type} (r : Completion A) : M A :=
  fun c =>
    match r with
    | Normal a => Returned a c
    | Throw e => Threw e c
    end.

Definition reads {A : Type} (f : Component -> A) : M A :=
  fun c => Returned (f c) c.

Definition modify (f : Component -> Component) : M unit :=
  fun c => Returned tt (f c).

Definition state_of {A : Type} (o : Outcome A) : Component :=
  match o with
  | Returned _ c => c
  | Threw _ c => c
  end.

Definition returns {A : Type} (o : Outcome A) : bool :=
  match o with
  | Returned _ _ => true
  | Threw _ _ => false
  end.

Notation "x <- m ;; k" := (bind m (fun x => k))
  (at level 61, m at next level, right associativity).
Notation "m ;; k" := (bind m (fun _ => k))
  (at level 61, right associativity).

(** **** The widget, [$emit] and [$toast] *)

(** [editor.getValue()] *)
Definition getValue : M string := reads buffer.

(** [editor.session.setAnnotations(a)]: the displayed annotations become
    [a]. *)
Definition setAnnotations (a : list Annotation.t) : M unit :=
  modify (with_annotations a).

(** [this.$emit(event, payload)] *)
Definition emit (event payload : string) : M unit :=
  modify (fun c => with_emitted (emitted c ++ [(event, payload)]) c).

(** [this.$toast.error(this.$t(key), ...)] *)
Definition toast_error (key : string) : M unit :=
  modify (fun c => with_toasts (toasts c ++ [key]) c).

(** **** [parseContents] *)

(** The function handed to [debounce]: one parse/validate pass over
    [content]. *)
Definition parseContents_body (content : string) : M unit :=
  if (content =? "")%string then setAnnotations []
  else
    try_catch
      (doc <- call (gql_parse content) ;;
       schema <- reads validationSchema ;;
       match schema with
       | Some schema =>
           errors <- call (gql_validate schema doc) ;;
           anns <- call (map_throwing annotation_of errors) ;;
           setAnnotations anns
       | None => ret tt
       end)
      (fun e =>
         ann <- call (annotation_of e) ;;
         setAnnotations [ann]).

(** Modelled from the spec: the helper [~/helpers/utils/debounce] is not
    among the sources.  By the spec it is a trailing-edge debounce with a
    fixed delay: a call arms the timer, a call within the window resets it
    (at most one pass is pending, none is queued), and when the window
    elapses the wrapped function runs once.  The pending pass carries the
    argument of the call that armed it. *)
Definition debounce_call (content : string) : M unit :=
  modify (with_inDebounce (Some content)).

(** Modelled from the spec: the debounce window elapses.  The pending pass,
    if any, runs to completion; without one nothing happens. *)
Definition debounce_elapses (body : string -> M unit) : M unit :=
  pending <- reads inDebounce ;;
  match pending with
  | None => ret tt
  | Some content => modify (with_inDebounce None) ;; body content
  end.

(** [parseContents: debounce(function (content) { ... }, 2000)] *)
Definition parseContents (content : string) : M unit :=
  debounce_call content.

(** The 2000 ms of [parseContents] have passed since its last call. *)
Definition window_elapses : M unit :=
  debounce_elapses parseContents_body.

(** **** Listeners, watchers and methods *)

(** The listener of [editor.on("change", ...)]. *)
Definition on_change : M unit :=
  content <- getValue ;;
  emit "input" content ;;
  parseContents content ;;
  modify (with_cacheValue content).

(** The user changes the buffer to [content]; the widget signals
    [change]. *)
Definition user_edit (content : string) : M unit :=
  modify (with_buffer content) ;; on_change.

Fixpoint signal_changes (contents : list string) : M unit :=
  match contents with
  | [] => ret tt
  | content :: rest =>
      modify (with_buffer content) ;; on_change ;; signal_changes rest
  end.

(** [this.editor.session.setValue(value, 1)], once the change listener is
    attached. *)
Definition session_setValue (value : string) : M unit :=
  old <- getValue ;;
  signal_changes (setValue_changes old value) ;;
  modify (with_buffer value).

(** [watch: { value(value) { ... } }] *)
Definition watch_value (value : string) : M unit :=
  cached <- reads cacheValue ;;
  if negb (value =? cached)%string then
    session_setValue value ;;
    modify (with_cacheValue value)
  else ret tt.

(** [mounted()], as far as content is concerned: the initial [value] is
    loaded before the change listener is attached. *)
Definition mounted (value : string) : M unit :=
  (if negb (value =? "")%string then modify (with_buffer value) else ret tt) ;;
  modify (with_cacheValue value) ;;
  parseContents value.

(** [prettifyQuery()] *)
Definition prettifyQuery : M unit :=
  try_catch
    (content <- getValue ;;
     doc <- call (gql_parse content) ;;
     text <- call (gql_print doc) ;;
     emit "update-query" text)
    (fun _ => toast_error "error.gql_prettify_invalid_query").

(** [setValidationSchema(schema)]; [None] is [null]. *)
Definition setValidationSchema (schema : option Schema) : M unit :=
  modify (with_validationSchema schema) ;;
  cached <- reads cacheValue ;;
  parseContents cached.

(** [completer.getCompletions]; the result is the list handed to
    [callback(null, ...)]. *)
Definition getCompletions (row column : Z) : M (list CompletionItem) :=
  schema <- reads validationSchema ;;
  match schema with
  | Some schema =>
      content <- getValue ;;
      completions <- call (getAutocompleteSuggestions schema content
                             {| Position.line := row; Position.character := column |}) ;;
      ret (map completion_item completions)
  | None => ret []
  end.

(** The host's [onRunGQLQuery] prop: called with a text, it returns or
    throws. *)
Variable onRunGQLQuery : string -> Completion unit.

(** The command [runGQLQuery]:
    [exec: () => this.onRunGQLQuery(this.editor.getValue())]. *)
Definition runGQLQuery : M unit :=
  content <- getValue ;;
  call (onRunGQLQuery content).

(** **** The component as an event handler

    What can happen to a mounted component: the user edits the buffer, the
    host changes the [value] prop, the host calls [setValidationSchema],
    the user issues one of the two commands, the widget asks for
    completions, the debounce window elapses. *)
Inductive Event : Type :=
| UserEdit (content : string)
| ValueChanged (value : string)
| SchemaSet (schema : option Schema)
| PrettifyCommand
| RunCommand
| CompletionRequest (row column : Z)
| WindowElapses.

Definition handle (ev : Event) : M unit :=
  match ev with
  | UserEdit content => user_edit content
  | ValueChanged value => watch_value value
  | SchemaSet schema => setValidationSchema schema
  | PrettifyCommand => prettifyQuery
  | RunCommand => runGQLQuery
  | CompletionRequest row column => getCompletions row column ;; ret tt
  | WindowElapses => window_elapses
  end.

(** A handler that throws ends there; the component keeps what it had
    become and takes the next event. *)
Fixpoint run (evs : list Event) (c : Component) : Component :=
  match evs with
  | [] => c
  | ev :: evs' => run evs' (state_of (handle ev c))
  end.

(** The component after [mounted()] with the initial [value], then [evs]. *)
Definition lifetime (value : string) (evs : list Event) : Component :=
  run evs (state_of (mounted value data)).

(** Whether the pass over [content] comes upon an error without a first
    location: thrown by the parser, thrown by the validator, or among the
    errors the validator returns. *)
Definition meets_unlocated_error (content : string) (c : Component) : bool :=
  match gql_parse content with
  | Throw e => negb (located e)
  | Normal doc =>
      match validationSchema c with
      | None => false
      | Some schema =>
          match gql_validate schema doc with
          | Throw e => negb (located e)
          | Normal errors => negb (forallb located errors)
          end
      end
  end.

(** The diagnostic displayed for an error located at [l] (1-based) with
    message [msg]: 0-based row and column, severity error. *)
Definition diagnostic (l : Loc.t) (msg : string) : Annotation.t :=
  {| Annotation.row := Loc.line l - 1;
     Annotation.column := Loc.column l - 1;
     Annotation.text := msg;
     Annotation.type := "error" |}.

(** **** Unfolding the monad *)

Lemma eqb_nonempty (content : string) :
  content <> "" -> (content =? "")%string = false.
Proof. intros H. apply String.eqb_neq. exact H. Qed.

Lemma annotation_of_located (e : JsError) l ls :
  locations e = Some (l :: ls) ->
  annotation_of e = Normal (diagnostic l (message e)).
Proof. unfold annotation_of, first_location. intros ->. reflexivity. Qed.

Lemma annotation_of_unlocated (e : JsError) :
  locations e = None -> annotation_of e = Throw (TypeError "0").
Proof. unfold annotation_of, first_location. intros ->. reflexivity. Qed.

(** Mapping [annotation_of] over errors that all carry a first location
    yields their diagnostics, in order. *)
Lemma map_annotation_of_located (errors : list JsError) (locs : list Loc.t) :
  Forall2 (fun e l => exists ls, locations e = Some (l :: ls)) errors locs ->
  map_throwing annotation_of errors =
  Normal (map (fun el => diagnostic (snd el) (message (fst el))) (combine errors locs)).
Proof.
  induction 1 as [| e l errors locs [ls Hl] _ IH]; simpl.
  - reflexivity.
  - rewrite (annotation_of_located e l ls Hl), IH. reflexivity.
Qed.

(** **** The debounced pass *)

(** When the window elapses with a pass pending on [content], the timer is
    cleared and the pass runs on [content]. *)
Lemma window_elapses_pending c content :
  inDebounce c = Some content ->
  window_elapses c = parseContents_body content (with_inDebounce None c).
Proof.
  intros H. unfold window_elapses, debounce_elapses, bind, reads, modify.
  rewrite H. reflexivity.
Qed.

Lemma window_elapses_idle c :
  inDebounce c = None -> window_elapses c = Returned tt c.
Proof.
  intros H. unfold window_elapses, debounce_elapses, bind, reads.
  rewrite H. reflexivity.
Qed.

(** An edit emits [input], arms a pass on the new content and caches it. *)
Lemma user_edit_run c content :
  user_edit content c =
  Returned tt
    {| buffer := content; annotations := annotations c; cacheValue := content;
       validationSchema := validationSchema c; inDebounce := Some content;
       emitted := emitted c ++ [("input", content)]; toasts := toasts c |}.
Proof. reflexivity. Qed.

(** A pass over an empty buffer clears the diagnostics. *)
Lemma pass_empty c :
  parseContents_body "" c = Returned tt (with_annotations [] c).
Proof. reflexivity. Qed.

(** A pass over text that fails to parse with a located error. *)
Lemma pass_parse_error c content e l ls :
  content <> "" ->
  gql_parse content = Throw e ->
  locations e = Some (l :: ls) ->
  parseContents_body content c =
  Returned tt (with_annotations [diagnostic l (message e)] c).
Proof.
  intros Hne Hp Hl. unfold parseContents_body.
  rewrite (eqb_nonempty _ Hne).
  unfold try_catch, bind, call. rewrite Hp.
  rewrite (annotation_of_located e l ls Hl). reflexivity.
Qed.

(** A pass over text that parses, with no schema: nothing is touched. *)
Lemma pass_no_schema c content doc :
  content <> "" ->
  gql_parse content = Normal doc ->
  validationSchema c = None ->
  parseContents_body content c = Returned tt c.
Proof.
  intros Hne Hp Hs. unfold parseContents_body.
  rewrite (eqb_nonempty _ Hne).
  unfold try_catch, bind, call, reads. rewrite Hp, Hs. reflexivity.
Qed.

(** A pass over text that parses, with a schema whose validator returns
    located errors. *)
Lemma pass_validated c content doc schema errors locs :
  content <> "" ->
  gql_parse content = Normal doc ->
  validationSchema c = Some schema ->
  gql_validate schema doc = Normal errors ->
  Forall2 (fun e l => exists ls, locations e = Some (l :: ls)) errors locs ->
  parseContents_body content c =
  Returned tt
    (with_annotations
       (map (fun el => diagnostic (snd el) (message (fst el))) (combine errors locs)) c).
Proof.
  intros Hne Hp Hs Hv Hl. unfold parseContents_body.
  rewrite (eqb_nonempty _ Hne).
  unfold try_catch, bind, call, reads. rewrite Hp, Hs, Hv.
  rewrite (map_annotation_of_located errors locs Hl). reflexivity.
Qed.

(** A pass in which the validator throws an error without locations: the
    handler itself throws, and the exception leaves the pass. *)
Lemma pass_validator_throws c content doc schema e :
  content <> "" ->
  gql_parse content = Normal doc ->
  validationSchema c = Some schema ->
  gql_validate schema doc = Throw e ->
  locations e = None ->
  parseContents_body content c = Threw (TypeError "0") c.
Proof.
  intros Hne Hp Hs Hv Hl. unfold parseContents_body.
  rewrite (eqb_nonempty _ Hne).
  unfold try_catch, bind, call, reads. rewrite Hp, Hs, Hv.
  rewrite (annotation_of_unlocated e Hl). reflexivity.
Qed.

(** **** The properties of the specification *)

(** C4.  With a pass pending over non-empty text (the change listener arms
    it with the buffer's content) on which the parser throws an error whose
    first location is [l], the pass that runs when the debounce window
    elapses returns normally and leaves exactly one displayed diagnostic:
    row [line l - 1], column [column l - 1], the error's message, type
    error.  Whatever was displayed before is replaced. *)
Theorem parse_error_single_diagnostic c content e l ls :
  inDebounce c = Some content ->
  content <> "" ->
  gql_parse content = Throw e ->
  locations e = Some (l :: ls) ->
  let c' := with_annotations
              [ {| Annotation.row := Loc.line l - 1;
                   Annotation.column := Loc.column l - 1;
                   Annotation.text := message e;
                   Annotation.type := "error" |} ]
              (with_inDebounce None c) in
  window_elapses c = Returned tt c' /\
  annotations c' = [diagnostic l (message e)].
Proof.
  intros Hpending Hne Hp Hl c'. split; [| reflexivity].
  rewrite (window_elapses_pending c content Hpending).
  apply (pass_parse_error _ content e l ls Hne Hp Hl).
Qed.

(** C5.  With a pass pending over non-empty text that parses, a schema
    installed, and a validator returning [errors] whose first locations are
    [locs], the pass that runs when the debounce window elapses replaces
    the displayed diagnostics by one diagnostic per validation error, in
    order: row and column are the error's first line and column minus 1,
    the text is the error's message. *)
Theorem validation_errors_diagnostics c content doc schema errors locs :
  inDebounce c = Some content ->
  content <> "" ->
  gql_parse content = Normal doc ->
  validationSchema c = Some schema ->
  gql_validate schema doc = Normal errors ->
  Forall2 (fun e l => exists ls, locations e = Some (l :: ls)) errors locs ->
  let shown := map (fun el => diagnostic (snd el) (message (fst el)))
                   (combine errors locs) in
  window_elapses c = Returned tt (with_annotations shown (with_inDebounce None c)) /\
  length shown = length errors /\
  map Annotation.text shown = map message errors /\
  map Annotation.row shown = map (fun l => Loc.line l - 1) locs /\
  map Annotation.column shown = map (fun l => Loc.column l - 1) locs.
Proof.
  intros Hpending Hne Hp Hs Hv Hl shown. split.
  - rewrite (window_elapses_pending c content Hpending).
    apply (pass_validated (with_inDebounce None c) content doc schema errors locs Hne Hp Hs Hv Hl).
  - subst shown. clear Hv. induction Hl as [| e l errors locs _ _ IH]; simpl.
    + repeat split.
    + destruct IH as (IH1 & IH2 & IH3 & IH4).
      rewrite IH1, IH2, IH3, IH4. repeat split.
Qed.

(** C6.  When parsing the buffer throws, or pretty-printing the parsed
    document throws, [prettifyQuery] returns normally, emits nothing,
    leaves buffer and diagnostics as they were, and only adds the toast
    [error.gql_prettify_invalid_query]. *)
Theorem prettify_failure_only_toasts c :
  (exists e, gql_parse (buffer c) = Throw e) \/
  (exists doc e, gql_parse (buffer c) = Normal doc /\ gql_print doc = Throw e) ->
  let c' := with_toasts (toasts c ++ ["error.gql_prettify_invalid_query"]) c in
  prettifyQuery c = Returned tt c' /\
  emitted c' = emitted c /\
  buffer c' = buffer c /\
  annotations c' = annotations c.
Proof.
  intros H c'. split; [| repeat split].
  unfold prettifyQuery, try_catch, bind, getValue, reads, call.
  destruct H as [[e Hp] | (doc & e & Hp & Hpr)].
  - rewrite Hp. reflexivity.
  - rewrite Hp, Hpr. reflexivity.
Qed.

(** C7.  After a buffer change to [s] the component has emitted [input]
    with [s] and caches [s]; setting [value] to [s] then changes nothing:
    no buffer replacement, same cached value, same state. *)
Theorem own_input_not_fed_back c s :
  let c1 := state_of (user_edit s c) in
  user_edit s c = Returned tt c1 /\
  emitted c1 = (emitted c ++ [("input", s)])%list /\
  cacheValue c1 = s /\
  watch_value s c1 = Returned tt c1.
Proof.
  intros c1. subst c1. rewrite user_edit_run. simpl.
  repeat split.
  unfold watch_value, bind, reads. simpl.
  rewrite String.eqb_refl. reflexivity.
Qed.

(** C9.  When the buffer holds [t], [t] parses to [doc] and [doc] prints
    back to [t], [prettifyQuery] emits [update-query] with [t] itself. *)
Theorem prettify_canonical_idempotent c t doc :
  buffer c = t ->
  gql_parse t = Normal doc ->
  gql_print doc = Normal t ->
  prettifyQuery c = Returned tt (with_emitted (emitted c ++ [("update-query", t)]) c).
Proof.
  intros Hb Hp Hpr.
  unfold prettifyQuery, try_catch, bind, getValue, reads, call.
  rewrite Hb, Hp, Hpr. reflexivity.
Qed.

(** C10.  Without a schema, [getCompletions] hands the callback the empty
    list, at every cursor position and buffer content, without throwing
    and without touching the component; this holds whatever the language
    service is, which is not called. *)
Theorem completions_without_schema c row column :
  validationSchema c = None ->
  getCompletions row column c = Returned [] c.
Proof.
  intros Hs. unfold getCompletions, bind, reads. rewrite Hs. reflexivity.
Qed.

(** C3, as the code has it.  [setValidationSchema] installs the schema and
    arms the debounced pass over the cached value; the call itself leaves
    the displayed diagnostics as they were.  They are updated when the
    debounce window elapses, by the pass over the cached value under the
    new schema. *)
Theorem setValidationSchema_arms_debounced_pass c schema :
  let c' := with_inDebounce (Some (cacheValue c)) (with_validationSchema schema c) in
  setValidationSchema schema c = Returned tt c' /\
  validationSchema c' = schema /\
  annotations c' = annotations c /\
  window_elapses c' =
    parseContents_body (cacheValue c) (with_inDebounce None (with_validationSchema schema c)).
Proof.
  intros c'. repeat split.
Qed.

(** **** What a pass touches, and when it throws *)

Ltac unfold_pass :=
  unfold parseContents_body, try_catch, bind, call, reads, setAnnotations,
    modify, ret.

Lemma with_annotations_same c : with_annotations (annotations c) c = c.
Proof. destruct c. reflexivity. Qed.

Lemma annotation_of_cases (e : JsError) :
  (located e = true /\ exists ann, annotation_of e = Normal ann) \/
  (located e = false /\ exists p, annotation_of e = Throw (TypeError p)).
Proof.
  unfold located, annotation_of, first_location.
  destruct (locations e) as [[| l ls] |].
  - right. split; [reflexivity | exists "line"; reflexivity].
  - left. split; [reflexivity | eexists; reflexivity].
  - right. split; [reflexivity | exists "0"; reflexivity].
Qed.

Lemma map_annotation_of_cases (errors : list JsError) :
  (forallb located errors = true /\
   exists anns, map_throwing annotation_of errors = Normal anns) \/
  (forallb located errors = false /\
   exists p, map_throwing annotation_of errors = Throw (TypeError p)).
Proof.
  induction errors as [| e errors IH]; simpl.
  - left. split; [reflexivity | eexists; reflexivity].
  - destruct (annotation_of_cases e) as [[-> [ann ->]] | [-> [p ->]]]; simpl.
    + destruct IH as [[-> [anns ->]] | [-> [p ->]]].
      * left. split; [reflexivity | eexists; reflexivity].
      * right. split; [reflexivity | eexists; reflexivity].
    + right. split; [reflexivity | eexists; reflexivity].
Qed.

Lemma annotation_of_TypeError p :
  annotation_of (TypeError p) = Throw (TypeError "0").
Proof. reflexivity. Qed.

(** A pass ends, returning or throwing, with the component as it was but
    for the annotations. *)
Lemma pass_frame content c :
  exists anns, state_of (parseContents_body content c) = with_annotations anns c.
Proof.
  unfold_pass.
  destruct (content =? "")%string.
  - exists []. reflexivity.
  - destruct (gql_parse content) as [doc | e].
    + destruct (validationSchema c) as [schema |].
      * destruct (gql_validate schema doc) as [errors | e].
        -- destruct (map_annotation_of_cases errors) as [[_ [anns ->]] | [_ [p ->]]].
           ++ exists anns. reflexivity.
           ++ exists (annotations c). rewrite with_annotations_same.
              rewrite annotation_of_TypeError. reflexivity.
        -- destruct (annotation_of_cases e) as [[_ [ann ->]] | [_ [p ->]]].
           ++ exists [ann]. reflexivity.
           ++ exists (annotations c). rewrite with_annotations_same. reflexivity.
      * exists (annotations c). rewrite with_annotations_same. reflexivity.
    + destruct (annotation_of_cases e) as [[_ [ann ->]] | [_ [p ->]]].
      * exists [ann]. reflexivity.
      * exists (annotations c). rewrite with_annotations_same. reflexivity.
Qed.

(** The pass returns unless it comes upon an error without a first
    location. *)
Lemma pass_returns content c :
  returns (parseContents_body content c) =
  negb (negb (content =? "")%string && meets_unlocated_error content c).
Proof.
  unfold meets_unlocated_error. unfold_pass.
  destruct (content =? "")%string; [reflexivity |]. simpl.
  destruct (gql_parse content) as [doc | e].
  - destruct (validationSchema c) as [schema |]; [| reflexivity].
    destruct (gql_validate schema doc) as [errors | e].
    + destruct (map_annotation_of_cases errors) as [[-> [anns ->]] | [-> [p ->]]].
      * reflexivity.
      * rewrite annotation_of_TypeError. reflexivity.
    + destruct (annotation_of_cases e) as [[-> [ann ->]] | [-> [p ->]]]; reflexivity.
  - destruct (annotation_of_cases e) as [[-> [ann ->]] | [-> [p ->]]]; reflexivity.
Qed.

(** X1.  When the debounce window elapses, whatever the parser and the
    validator do and whether the pass returns or throws, the component
    keeps its buffer, cached value, schema, emitted events and toasts; only
    the displayed diagnostics can differ, and no pass is pending
    afterwards. *)
Theorem pass_touches_only_diagnostics c :
  let c' := state_of (window_elapses c) in
  buffer c' = buffer c /\
  cacheValue c' = cacheValue c /\
  validationSchema c' = validationSchema c /\
  emitted c' = emitted c /\
  toasts c' = toasts c /\
  inDebounce c' = None.
Proof.
  intros c'. subst c'.
  destruct (inDebounce c) as [content |] eqn:Hpending.
  - rewrite (window_elapses_pending c content Hpending).
    destruct (pass_frame content (with_inDebounce None c)) as [anns ->].
    repeat split.
  - rewrite (window_elapses_idle c Hpending). repeat split. exact Hpending.
Qed.

(** X2.  With a pass pending over [content], the pass that runs when the
    debounce window elapses throws exactly when [content] is not empty and
    the pass comes upon an error without a first location (thrown by the
    parser, thrown by the validator, or among the validator's results);
    in every other case it returns. *)
Theorem pass_throws_exactly_on_unlocated_error c content :
  inDebounce c = Some content ->
  returns (window_elapses c) =
  negb (negb (content =? "")%string && meets_unlocated_error content c).
Proof.
  intros Hpending.
  rewrite (window_elapses_pending c content Hpending).
  apply (pass_returns content (with_inDebounce None c)).
Qed.

(** X3.  Emptying the buffer clears the diagnostics: after the user makes
    the buffer empty and the debounce window elapses, nothing is displayed,
    whatever was displayed before and whatever schema is installed; the
    parser and the validator are not consulted. *)
Theorem emptied_buffer_clears_diagnostics c :
  bind (user_edit "") (fun _ => window_elapses) c =
  Returned tt
    {| buffer := ""; annotations := []; cacheValue := "";
       validationSchema := validationSchema c; inDebounce := None;
       emitted := (emitted c ++ [("input", "")])%list; toasts := toasts c |}.
Proof. reflexivity. Qed.

(** **** The commands and the completer *)

(** X4.  [prettifyQuery] always returns.  Either the buffer parses and
    the document prints, and exactly one [update-query] event carrying the
    printed text is emitted; or one of the two throws, and exactly one
    toast is added.  Nothing else of the component changes. *)
Theorem prettifyQuery_emits_or_toasts c :
  (exists doc text,
      gql_parse (buffer c) = Normal doc /\
      gql_print doc = Normal text /\
      prettifyQuery c =
      Returned tt (with_emitted (emitted c ++ [("update-query", text)])%list c)) \/
  (((exists e, gql_parse (buffer c) = Throw e) \/
    (exists doc e, gql_parse (buffer c) = Normal doc /\ gql_print doc = Throw e)) /\
   prettifyQuery c =
   Returned tt (with_toasts (toasts c ++ ["error.gql_prettify_invalid_query"])%list c)).
Proof.
  unfold prettifyQuery, try_catch, bind, getValue, reads, call.
  destruct (gql_parse (buffer c)) as [doc | e] eqn:Hp.
  - destruct (gql_print doc) as [text | e] eqn:Hpr.
    + left. exists doc, text. repeat split. exact Hpr.
    + right. split; [| reflexivity].
      right. exists doc, e. split; [reflexivity | exact Hpr].
  - right. split; [| reflexivity]. left. exists e. reflexivity.
Qed.

(** X5.  [getCompletions] never changes the component.  With a schema
    installed it asks the language service at [{line: row, character:
    column}] over the buffer and hands back one item per suggestion, in
    order (name and value the label, score 1, meta the detail); an
    exception of the language service is not caught and ends the call. *)
Theorem getCompletions_with_schema c row column schema :
  validationSchema c = Some schema ->
  let asked := getAutocompleteSuggestions schema (buffer c)
                 {| Position.line := row; Position.character := column |} in
  state_of (getCompletions row column c) = c /\
  (forall suggestions,
      asked = Normal suggestions ->
      exists items,
        getCompletions row column c = Returned items c /\
        length items = length suggestions /\
        map name items = map label suggestions /\
        map value items = map label suggestions /\
        map meta items = map detail suggestions /\
        Forall (fun item => score item = 1) items) /\
  (forall e, asked = Throw e -> getCompletions row column c = Threw e c).
Proof.
  intros Hs asked. subst asked.
  unfold getCompletions, getValue, bind, reads, call, ret. rewrite Hs.
  destruct (getAutocompleteSuggestions schema (buffer c) _) as [suggestions | e].
  - split; [reflexivity |]. split; [| discriminate].
    intros suggestions' H. injection H as <-.
    exists (map completion_item suggestions).
    split; [reflexivity |].
    rewrite length_map, !map_map. simpl.
    repeat split.
    apply Forall_map. apply Forall_forall. reflexivity.
  - split; [reflexivity |]. split; [discriminate |].
    intros e' H. injection H as <-. reflexivity.
Qed.

(** **** The [value] prop *)

Lemma last_cons {A : Type} (x : A) (l : list A) (d : A) :
  last (x :: l) d = last l x.
Proof.
  revert x d. induction l as [| y l IH]; intros x d.
  - reflexivity.
  - change (last (x :: y :: l) d) with (last (y :: l) d).
    rewrite (IH y d), (IH y x). reflexivity.
Qed.

(** The change listener run over a series of buffer contents. *)
Lemma signal_changes_run (contents : list string) c :
  signal_changes contents c =
  Returned tt
    {| buffer := last contents (buffer c);
       annotations := annotations c;
       cacheValue := last contents (cacheValue c);
       validationSchema := validationSchema c;
       inDebounce := last (map Some contents) (inDebounce c);
       emitted := (emitted c ++ map (fun content => ("input", content)) contents)%list;
       toasts := toasts c |}.
Proof.
  revert c. induction contents as [| content rest IH]; intros c.
  - simpl. rewrite app_nil_r. destruct c. reflexivity.
  - cbn [signal_changes].
    unfold bind at 1. unfold modify at 1.
    unfold bind at 1. unfold on_change at 1.
    unfold bind, getValue, reads, emit, parseContents, debounce_call, modify.
    cbn -[last]. rewrite IH. cbn -[last].
    rewrite !last_cons, <- app_assoc. reflexivity.
Qed.

(** What [watch_value] does when the new value differs from the cached
    one. *)
Lemma watch_value_run c v :
  v <> cacheValue c ->
  watch_value v c =
  Returned tt
    {| buffer := v;
       annotations := annotations c;
       cacheValue := v;
       validationSchema := validationSchema c;
       inDebounce := last (map Some (setValue_changes (buffer c) v)) (inDebounce c);
       emitted := (emitted c ++
                   map (fun content => ("input", content))
                     (setValue_changes (buffer c) v))%list;
       toasts := toasts c |}.
Proof.
  intros Hne. unfold watch_value, bind, reads.
  rewrite (proj2 (String.eqb_neq v (cacheValue c)) Hne). simpl.
  unfold session_setValue, bind, getValue, reads.
  rewrite signal_changes_run. reflexivity.
Qed.

Lemma watch_value_cached c v :
  v = cacheValue c -> watch_value v c = Returned tt c.
Proof.
  intros ->. unfold watch_value, bind, reads.
  rewrite String.eqb_refl. reflexivity.
Qed.

(** X6.  When the host sets [value] to a text other than the cached one,
    the buffer and the cached value both become that text, and every
    change the widget signals during the replacement is echoed to the host
    as an [input] event; diagnostics, schema and toasts are untouched. *)
Theorem host_value_replaces_buffer c v :
  v <> cacheValue c ->
  let c' := state_of (watch_value v c) in
  watch_value v c = Returned tt c' /\
  buffer c' = v /\
  cacheValue c' = v /\
  emitted c' =
    (emitted c ++
     map (fun content => ("input", content)) (setValue_changes (buffer c) v))%list /\
  annotations c' = annotations c /\
  validationSchema c' = validationSchema c /\
  toasts c' = toasts c.
Proof.
  intros Hne c'. subst c'. rewrite (watch_value_run c v Hne).
  repeat split.
Qed.

(** X7.  Setting [value] twice to the same text is the same as setting it
    once: the watcher always returns, leaves the text cached, and a second
    run on the result changes nothing. *)
Theorem host_value_idempotent c v :
  let c' := state_of (watch_value v c) in
  watch_value v c = Returned tt c' /\
  cacheValue c' = v /\
  watch_value v c' = Returned tt c'.
Proof.
  intros c'. subst c'.
  destruct (String.eqb_spec v (cacheValue c)) as [Heq | Hne].
  - rewrite (watch_value_cached c v Heq). simpl.
    repeat split; [symmetry; exact Heq | apply watch_value_cached; exact Heq].
  - rewrite (watch_value_run c v Hne). simpl.
    repeat split. apply watch_value_cached. reflexivity.
Qed.

(** **** Invariants of the mounted component *)

Lemma mounted_run value :
  mounted value data =
  Returned tt
    {| buffer := value; annotations := []; cacheValue := value;
       validationSchema := None; inDebounce := Some value;
       emitted := []; toasts := [] |}.
Proof.
  unfold mounted, bind, modify, parseContents, debounce_call, ret.
  destruct (String.eqb_spec value "") as [-> | _]; reflexivity.
Qed.

Lemma window_elapses_state c :
  exists anns,
    state_of (window_elapses c) = with_annotations anns (with_inDebounce None c).
Proof.
  destruct (inDebounce c) as [content |] eqn:Hpending.
  - rewrite (window_elapses_pending c content Hpending).
    apply pass_frame.
  - rewrite (window_elapses_idle c Hpending). exists (annotations c).
    destruct c. simpl in *. subst. reflexivity.
Qed.

Lemma prettifyQuery_state c :
  exists e t, state_of (prettifyQuery c) = with_emitted e (with_toasts t c).
Proof.
  unfold prettifyQuery, try_catch, bind, getValue, reads, call.
  destruct (gql_parse (buffer c)) as [doc | e].
  - destruct (gql_print doc) as [text | e].
    + exists (emitted c ++ [("update-query", text)])%list, (toasts c).
      destruct c. reflexivity.
    + exists (emitted c), (toasts c ++ ["error.gql_prettify_invalid_query"])%list.
      destruct c. reflexivity.
  - exists (emitted c), (toasts c ++ ["error.gql_prettify_invalid_query"])%list.
    destruct c. reflexivity.
Qed.

Lemma runGQLQuery_state c : state_of (runGQLQuery c) = c.
Proof.
  unfold runGQLQuery, getValue, bind, reads, call.
  destruct (onRunGQLQuery (buffer c)); reflexivity.
Qed.

Lemma completion_request_state row column c :
  state_of (bind (getCompletions row column) (fun _ => ret tt) c) = c.
Proof.
  unfold getCompletions, getValue, bind, reads, call, ret.
  destruct (validationSchema c) as [schema |]; [| reflexivity].
  destruct (getAutocompleteSuggestions schema (buffer c) _); reflexivity.
Qed.

(** The two facts kept by every handler: the cached value is the buffer's
    text, and a pending pass is over the buffer's text.  The second needs
    the widget to signal the new text last when it replaces a text by
    another one. *)
Lemma handle_keeps_sync ev c :
  cacheValue c = buffer c ->
  cacheValue (state_of (handle ev c)) = buffer (state_of (handle ev c)).
Proof.
  intros Hsync. destruct ev as [content | v | schema | | | row column |]; cbn [handle].
  - rewrite user_edit_run. reflexivity.
  - destruct (String.eqb_spec v (cacheValue c)) as [Heq | Hne].
    + rewrite (watch_value_cached c v Heq). exact Hsync.
    + rewrite (watch_value_run c v Hne). reflexivity.
  - exact Hsync.
  - destruct (prettifyQuery_state c) as (e & t & ->). exact Hsync.
  - rewrite runGQLQuery_state. exact Hsync.
  - rewrite completion_request_state. exact Hsync.
  - destruct (window_elapses_state c) as [anns ->]. exact Hsync.
Qed.

Lemma handle_keeps_pending ev c :
  (forall old new, old <> new -> exists l, setValue_changes old new = (l ++ [new])%list) ->
  cacheValue c = buffer c ->
  (forall content, inDebounce c = Some content -> content = buffer c) ->
  forall content,
    inDebounce (state_of (handle ev c)) = Some content ->
    content = buffer (state_of (handle ev c)).
Proof.
  intros Hwidget Hsync Hpending.
  destruct ev as [content | v | schema | | | row column |]; cbn [handle].
  - rewrite user_edit_run. simpl. intros content' H. injection H as <-. reflexivity.
  - destruct (String.eqb_spec v (cacheValue c)) as [Heq | Hne].
    + rewrite (watch_value_cached c v Heq). exact Hpending.
    + rewrite (watch_value_run c v Hne). simpl.
      destruct (Hwidget (buffer c) v) as [l ->].
      * rewrite <- Hsync. intros H. apply Hne. symmetry. exact H.
      * rewrite map_app. simpl. rewrite last_last.
        intros content H. injection H as <-. reflexivity.
  - intros content H. injection H as <-. exact Hsync.
  - destruct (prettifyQuery_state c) as (e & t & ->). exact Hpending.
  - rewrite runGQLQuery_state. exact Hpending.
  - rewrite completion_request_state. exact Hpending.
  - destruct (window_elapses_state c) as [anns ->]. simpl. discriminate.
Qed.

(** X8.  Throughout the life of a mounted component, after any series of
    edits, [value] changes, schema installations, commands, completion
    requests and elapsed windows, the cached value equals the text of the
    buffer. *)
Theorem cached_value_mirrors_buffer value evs :
  cacheValue (lifetime value evs) = buffer (lifetime value evs).
Proof.
  unfold lifetime. rewrite mounted_run. simpl.
  match goal with |- context [run evs ?c0] =>
    assert (H0 : cacheValue c0 = buffer c0) by reflexivity;
    generalize dependent c0
  end.
  induction evs as [| ev evs IH]; intros c0 H0; simpl.
  - exact H0.
  - apply IH. apply handle_keeps_sync. exact H0.
Qed.

(** X9.  Provided the widget, when it replaces a text by a different one,
    signals the new text last: throughout the life of a mounted component
    a pending parse/validate pass is always over the current text of the
    buffer. *)
Theorem pending_pass_over_current_buffer value evs content :
  (forall old new, old <> new -> exists l, setValue_changes old new = (l ++ [new])%list) ->
  inDebounce (lifetime value evs) = Some content ->
  content = buffer (lifetime value evs).
Proof.
  intros Hwidget. unfold lifetime. rewrite mounted_run. simpl.
  revert content.
  match goal with |- context [run evs ?c0] =>
    assert (H0 : cacheValue c0 = buffer c0) by reflexivity;
    assert (H1 : forall content, inDebounce c0 = Some content -> content = buffer c0)
      by (simpl; intros content H; injection H as <-; reflexivity);
    generalize dependent c0
  end.
  induction evs as [| ev evs IH]; intros c0 H0 H1; simpl.
  - exact H1.
  - apply IH.
    + apply handle_keeps_sync. exact H0.
    + apply handle_keeps_pending; assumption.
Qed.

(** X10.  Only the debounced pass changes the displayed diagnostics: every
    other handler (edit, [value] change, schema installation, either
    command, completion request) leaves them as they were. *)
Theorem diagnostics_change_only_in_pass ev c :
  ev <> WindowElapses ->
  annotations (state_of (handle ev c)) = annotations c.
Proof.
  intros Hev. destruct ev as [content | v | schema | | | row column |]; cbn [handle].
  - rewrite user_edit_run. reflexivity.
  - destruct (String.eqb_spec v (cacheValue c)) as [Heq | Hne].
    + rewrite (watch_value_cached c v Heq). reflexivity.
    + rewrite (watch_value_run c v Hne). reflexivity.
  - reflexivity.
  - destruct (prettifyQuery_state c) as (e & t & ->). reflexivity.
  - rewrite runGQLQuery_state. reflexivity.
  - rewrite completion_request_state. reflexivity.
  - contradiction Hev. reflexivity.
Qed.

End Component.

Arguments Returned {Schema A} a c.
Arguments Threw {Schema A} e c.

(** *** The component run on the sample collaborators *)

Notation "m ;; k" := (bind m (fun _ => k))
  (at level 61, right associativity).
Abbreviation sample_window := (window_elapses Sample.parse Sample.validate).
Abbreviation sample_data := (@data Sample.Schema).
Abbreviation expected_name :=
  {| Annotation.row := 0; Annotation.column := 3;
     Annotation.text := "Syntax Error: Expected Name, found <EOF>.";
     Annotation.type := "error" |}.

(** C2, on the code.  No schema is installed.  The component is mounted on
    the text [{ a], which does not parse: after the debounce window its
    syntax error is displayed.  The user completes the text to [{ a }],
    which parses: after the debounce window the syntax error of the old
    text is still displayed.  A pass over text that parses, without a
    schema, never calls [setAnnotations]. *)
Theorem stale_diagnostic_survives_valid_text :
  Sample.parse "{ a }" = Normal "a" /\
  (mounted "{ a" ;; sample_window ;; user_edit "{ a }" ;; sample_window) sample_data =
  Returned tt
    {| buffer := "{ a }";
       annotations := [expected_name];
       cacheValue := "{ a }";
       validationSchema := None;
       inDebounce := None;
       emitted := [("input", "{ a }")];
       toasts := [] |}.
Proof. split; reflexivity. Qed.

(** C3, as stated, fails.  The component shows [{ a }] with no diagnostics;
    a schema whose query type has no field [a] is installed.  Right after
    [setValidationSchema] the displayed diagnostics are still empty,
    whereas validating the buffer against the new schema reports one
    error. *)
Lemma setValidationSchema_not_immediate :
  let c := state_of ((mounted "{ a }" ;; sample_window) sample_data) in
  let schema := Some (Sample.QueryFields ["b"]) in
  let revalidated :=
    state_of (parseContents_body Sample.parse Sample.validate (buffer c)
                (with_validationSchema schema c)) in
  annotations (state_of (setValidationSchema schema c)) = [] /\
  annotations revalidated =
    [ {| Annotation.row := 0; Annotation.column := 2;
         Annotation.text := "Cannot query field a on type Query.";
         Annotation.type := "error" |} ] /\
  annotations (state_of (setValidationSchema schema c)) <> annotations revalidated.
Proof. repeat split. discriminate. Qed.

(** C8, on the code.  The component shows [{ a }]; a schema without a query
    type is installed, on which the validator throws an error that has no
    [locations].  When the debounce window elapses the [catch] handler
    reads [e.locations[0]], throws a [TypeError], and the pass ends with
    that exception instead of returning. *)
Theorem unlocated_error_escapes_pass :
  Sample.validate Sample.NoQueryType "a" =
    Throw {| locations := None; message := "Query root type must be provided." |} /\
  (mounted "{ a }" ;; setValidationSchema (Some Sample.NoQueryType) ;; sample_window)
    sample_data =
  Threw (TypeError "0")
    {| buffer := "{ a }";
       annotations := [];
       cacheValue := "{ a }";
       validationSchema := Some Sample.NoQueryType;
       inDebounce := None;
       emitted := [];
       toasts := [] |}.
Proof. split; reflexivity. Qed.

(** Witness of C4: the user types [{ a]. *)
Lemma parse_error_single_diagnostic_witness :
  let c := state_of (user_edit "{ a" sample_data) in
  sample_window c =
    Returned tt (with_annotations [expected_name] (with_inDebounce None c)) /\
  annotations (with_annotations [expected_name] (with_inDebounce None c)) =
    [expected_name].
Proof.
  intros c.
  apply (parse_error_single_diagnostic Sample.parse Sample.validate c "{ a"
           (Sample.syntax_error 1 4 "Syntax Error: Expected Name, found <EOF>.")
           {| Loc.line := 1; Loc.column := 4 |} []).
  - reflexivity.
  - discriminate.
  - reflexivity.
  - reflexivity.
Defined.

(** Witness of C5: [{ a }] under a schema whose query type has only the
    field [b]. *)
Lemma validation_errors_diagnostics_witness :
  let c := state_of ((mounted "{ a }" ;;
                      setValidationSchema (Some (Sample.QueryFields ["b"])))
                       sample_data) in
  sample_window c =
  Returned tt
    (with_annotations
       [ {| Annotation.row := 0; Annotation.column := 2;
            Annotation.text := "Cannot query field a on type Query.";
            Annotation.type := "error" |} ]
       (with_inDebounce None c)).
Proof.
  intros c.
  refine (proj1 (validation_errors_diagnostics Sample.parse Sample.validate c
                   "{ a }" "a" (Sample.QueryFields ["b"])
                   [Sample.syntax_error 1 3 "Cannot query field a on type Query."]
                   [ {| Loc.line := 1; Loc.column := 3 |} ] _ _ _ _ _ _)).
  - reflexivity.
  - discriminate.
  - reflexivity.
  - reflexivity.
  - reflexivity.
  - constructor; [exists []; reflexivity | constructor].
Defined.

(** Witness of C6: reformatting [{ a], which does not parse. *)
Lemma prettify_failure_only_toasts_witness :
  let c := state_of (user_edit "{ a" sample_data) in
  let c' := with_toasts ["error.gql_prettify_invalid_query"] c in
  prettifyQuery Sample.parse Sample.print c = Returned tt c' /\
  emitted c' = emitted c /\
  buffer c' = buffer c /\
  annotations c' = annotations c.
Proof.
  intros c.
  apply (prettify_failure_only_toasts Sample.parse Sample.print c).
  left.
  exists (Sample.syntax_error 1 4 "Syntax Error: Expected Name, found <EOF>.").
  reflexivity.
Defined.

(** Witness of C9: reformatting the printer's own layout of [{ a }]. *)
Lemma prettify_canonical_idempotent_witness :
  let c := state_of (user_edit (Sample.canonical "a") sample_data) in
  prettifyQuery Sample.parse Sample.print c =
  Returned tt
    (with_emitted [("input", Sample.canonical "a");
                   ("update-query", Sample.canonical "a")] c).
Proof.
  intros c.
  apply (prettify_canonical_idempotent Sample.parse Sample.print c
           (Sample.canonical "a") "a").
  - reflexivity.
  - reflexivity.
  - reflexivity.
Defined.

(** Witness of C10: completion in the freshly created component. *)
Lemma completions_without_schema_witness :
  getCompletions Sample.suggest 0 0 sample_data = Returned [] sample_data.
Proof.
  apply (completions_without_schema Sample.suggest sample_data 0 0).
  reflexivity.
Defined.

(** Witness of X2: the validator throws without locations on [{ a }]. *)
Lemma pass_throws_exactly_on_unlocated_error_witness :
  let c := state_of ((mounted "{ a }" ;;
                      setValidationSchema (Some Sample.NoQueryType)) sample_data) in
  returns (sample_window c) = false.
Proof.
  intros c.
  apply (pass_throws_exactly_on_unlocated_error Sample.parse Sample.validate c "{ a }").
  reflexivity.
Defined.

(** Witness of X5: completion under a schema with the fields [a] and
    [b]. *)
Lemma getCompletions_with_schema_witness :
  let c := state_of ((mounted "{ a }" ;;
                      setValidationSchema (Some (Sample.QueryFields ["a"; "b"])))
                       sample_data) in
  exists items,
    getCompletions Sample.suggest 0 2 c = Returned items c /\
    map name items = ["a"; "b"] /\
    map value items = ["a"; "b"].
Proof.
  intros c.
  destruct (getCompletions_with_schema Sample.suggest c 0 2
              (Sample.QueryFields ["a"; "b"]) eq_refl) as (_ & Hok & _).
  destruct (Hok _ eq_refl) as (items & Hrun & _ & Hname & Hvalue & _).
  exists items. exact (conj Hrun (conj Hname Hvalue)).
Defined.

(** Witness of X6: the host replaces [{ a }] by [{ b }]. *)
Lemma host_value_replaces_buffer_witness :
  let c := state_of (mounted "{ a }" sample_data) in
  let c' := state_of (watch_value Sample.setValue_changes "{ b }" c) in
  buffer c' = "{ b }" /\
  cacheValue c' = "{ b }" /\
  emitted c' = [("input", "{ b }")].
Proof.
  intros c c'.
  destruct (host_value_replaces_buffer Sample.setValue_changes c "{ b }")
    as (_ & Hb & Hc & He & _).
  - discriminate.
  - exact (conj Hb (conj Hc He)).
Defined.

(** Witness of X9: mounted on [{ a }], the host sets [{ b }]. *)
Lemma pending_pass_over_current_buffer_witness :
  "{ b }" =
  buffer (lifetime Sample.parse Sample.validate Sample.print Sample.suggest
            Sample.setValue_changes (fun _ => Normal tt)
            "{ a }" [ValueChanged "{ b }"]).
Proof.
  apply (pending_pass_over_current_buffer Sample.parse Sample.validate Sample.print
           Sample.suggest Sample.setValue_changes (fun _ => Normal tt)
           "{ a }" [ValueChanged "{ b }"] "{ b }").
  - intros old new _. exists []. reflexivity.
  - reflexivity.
Defined.

(** Witness of X10: reformatting text that does not parse. *)
Lemma diagnostics_change_only_in_pass_witness :
  let c := state_of ((mounted "{ a" ;; sample_window) sample_data) in
  annotations
    (state_of (handle Sample.parse Sample.validate Sample.print Sample.suggest
                 Sample.setValue_changes (fun _ => Normal tt) PrettifyCommand c)) =
  [expected_name].
Proof.
  intros c.
  apply (diagnostics_change_only_in_pass Sample.parse Sample.validate Sample.print
           Sample.suggest Sample.setValue_changes (fun _ => Normal tt)
           PrettifyCommand c).
  discriminate.
Defined.

(** *** [strip] and [defineTheme] *)

Lemma strip_filter (str : string) :
  list_ascii_of_string (strip str) = filter kept (list_ascii_of_string str).
Proof.
  unfold strip. induction str as [| a rest IH].
  - reflexivity.
  - cbn [remove_all list_ascii_of_string filter].
    unfold kept at 1.
    destruct (Ascii.eqb a "#") eqn:Hhash; cbn [orb negb].
    + exact IH.
    + cbn [remove_all].
      destruct (Ascii.eqb a " ") eqn:Hspace; cbn [orb negb].
      * exact IH.
      * cbn [remove_all].
        destruct (Ascii.eqb a quote) eqn:Hquote; cbn [orb negb].
        -- exact IH.
        -- cbn [list_ascii_of_string]. rewrite IH. reflexivity.
Qed.

Lemma filter_twice {A : Type} (f : A -> bool) (l : list A) :
  filter f (filter f l) = filter f l.
Proof.
  induction l as [| a l IH]; simpl.
  - reflexivity.
  - destruct (f a) eqn:Hf; simpl; [rewrite Hf, IH |]; auto.
Qed.

Lemma kept_spec (a : ascii) :
  kept a = true -> a <> "#"%char /\ a <> " "%char /\ a <> quote.
Proof.
  unfold kept. intros H.
  apply negb_true_iff in H.
  apply orb_false_iff in H. destruct H as [H Hq].
  apply orb_false_iff in H. destruct H as [Hh Hs].
  repeat split; apply Ascii.eqb_neq; assumption.
Qed.

(** X11.  [strip] keeps, in order, exactly the characters that are neither
    a hash sign, nor a space, nor a double quote: its three replacements in
    a row amount to one filter. *)
Theorem strip_keeps_the_other_characters (str : string) :
  strip str = string_of_list_ascii (filter kept (list_ascii_of_string str)).
Proof.
  rewrite <- strip_filter. symmetry. apply string_of_list_ascii_of_string.
Qed.

(** X12.  [strip] is idempotent: stripping a stripped text changes
    nothing. *)
Theorem strip_idempotent (str : string) :
  strip (strip str) = strip str.
Proof.
  rewrite <- (string_of_list_ascii_of_string (strip (strip str))).
  rewrite <- (string_of_list_ascii_of_string (strip str)) at 2.
  rewrite !strip_filter, filter_twice. reflexivity.
Qed.

(** X13.  Without a theme prop ([null], or the empty string, which is
    falsy), [defineTheme] is the stripped [--editor-theme] property, and
    the name it returns holds no hash sign, space or double quote,
    whatever the property's text. *)
Theorem defineTheme_fallback_is_sanitised theme editor_theme :
  theme = None \/ theme = Some "" ->
  defineTheme theme editor_theme = strip editor_theme /\
  Forall (fun a => a <> "#"%char /\ a <> " "%char /\ a <> quote)
         (list_ascii_of_string (defineTheme theme editor_theme)).
Proof.
  intros H.
  assert (Hd : defineTheme theme editor_theme = strip editor_theme)
    by (destruct H as [-> | ->]; reflexivity).
  split; [exact Hd |].
  rewrite Hd, strip_filter. apply Forall_forall.
  intros a Ha. apply filter_In in Ha. apply kept_spec. apply Ha.
Qed.

(** Witness of X13: the property as a browser reports it, with a leading
    space and quotes around the name. *)
Lemma defineTheme_fallback_is_sanitised_witness :
  defineTheme None (String " " (String quote ("twilight" ++ String quote ""))) =
  "twilight".
Proof.
  destruct (defineTheme_fallback_is_sanitised None
              (String " " (String quote ("twilight" ++ String quote "")))
              (or_introl eq_refl)) as [H _].
  rewrite H. reflexivity.
Defined.

End QueryEditor.

(* ===================================================================== *)
(** ** The rules of firestore.rules, evaluated *)
(* ===================================================================== *)

Module FirestoreRules.

Import Firestore.

(** The first block grants every operation on every document to every
    authenticated requester. *)
Lemma catch_all_grants_authenticated db uid seg segs o :
  evaluate rules {| auth := Some uid; path := document db (seg :: segs); op := o |}
  = allow.
Proof.
  unfold evaluate, rules, document. simpl.
  destruct o; reflexivity.
Qed.

(** Without authentication nothing is granted on a user document. *)
Lemma unauthenticated_read_denied db user :
  evaluate rules {| auth := None; path := document db ["users"; user]; op := OpGet |}
  = deny.
Proof. reflexivity. Qed.

(** The second block alone refuses an update of another user's document. *)
Lemma user_document_alone_denies db :
  evaluate rules_without_catch_all
    {| auth := Some "u1"; path := document db ["users"; "u2"]; op := OpUpdate |}
  = deny.
Proof. reflexivity. Qed.

(** C1, on the code.  The request of [u1] to update [/users/u2] is allowed:
    the path also matches [/{document=**}], whose [allow read, write]
    covers update and whose condition only asks for a non-null uid.  The
    id-match condition of [/users/{userId}] does not take that grant
    away. *)
Theorem other_user_update_allowed db :
  evaluate rules
    {| auth := Some "u1"; path := document db ["users"; "u2"]; op := OpUpdate |}
  = allow.
Proof. reflexivity. Qed.

(** What the first block grants, at the place where it is nested. *)
Lemma catch_all_allowed env p r :
  allowed catch_all env p r =
  match p with
  | [] => false
  | _ :: _ => match auth r with Some _ => true | None => false end
  end.
Proof.
  destruct p as [| seg segs]; [reflexivity |].
  unfold catch_all, allowed, match_prefix, grants. simpl.
  destruct (auth r); destruct (op r); reflexivity.
Qed.

(** What the second block grants. *)
Lemma user_document_allowed env p r :
  allowed user_document env p r = true <->
  exists user uid,
    p = ["users"; user] /\ auth r = Some uid /\ (op r = OpCreate \/ uid = user).
Proof.
  unfold user_document, allowed, match_prefix.
  destruct p as [| seg [| user [| extra rest]]].
  - split; [discriminate | intros (user & uid & H & _); discriminate].
  - split.
    + destruct (String.eqb "users" seg); discriminate.
    + intros (user & uid & H & _). discriminate.
  - destruct (String.eqb_spec "users" seg) as [<- | Hseg].
    + unfold grants. simpl.
      destruct (auth r) as [uid |] eqn:Hauth; simpl.
      * destruct (String.eqb_spec uid user) as [-> | Hne].
        -- split; [| destruct (op r); reflexivity].
           intros _. exists user, user. auto.
        -- destruct (op r) eqn:Hop; simpl; split;
             try discriminate; try reflexivity;
             try (intros _; exists user, uid; auto);
             intros (user' & uid' & Hp & Hu & [Hc | He]); congruence.
      * rewrite !andb_false_r. simpl.
        split; [discriminate | intros (user' & uid' & _ & H & _); discriminate].
    + split; [discriminate |].
      intros (user' & uid' & Hp & _). congruence.
  - split.
    + destruct (String.eqb "users" seg); discriminate.
    + intros (user' & uid' & Hp & _). discriminate.
Qed.

(** The whole file, in terms of its two blocks. *)
Lemma rules_allowed r :
  allowed rules [] (path r) r =
  match path r with
  | s1 :: db :: s3 :: rest =>
      String.eqb "databases" s1 && String.eqb "documents" s3 &&
      (allowed catch_all [("database", db)] rest r ||
       allowed user_document [("database", db)] rest r)
  | _ => false
  end.
Proof.
  unfold rules.
  destruct (path r) as [| s1 [| db [| s3 rest]]]; cbn [allowed match_prefix].
  - reflexivity.
  - destruct (String.eqb "databases" s1); reflexivity.
  - destruct (String.eqb "databases" s1); reflexivity.
  - destruct (String.eqb "databases" s1); [| reflexivity].
    destruct (String.eqb "documents" s3); [| reflexivity].
    cbn [andb]. destruct rest; cbn [orb]; rewrite orb_false_r; reflexivity.
Qed.

(** X14.  The file as a whole allows a request exactly when the requester
    is authenticated and the path names a document (at least one segment)
    under [/databases/{database}/documents]: neither the operation nor the
    collection nor the requester's uid plays a part. *)
Theorem rules_allow_exactly_the_authenticated r :
  evaluate rules r = allow <->
  exists uid db seg segs,
    auth r = Some uid /\ path r = document db (seg :: segs).
Proof.
  unfold evaluate. rewrite rules_allowed. unfold document.
  destruct (path r) as [| s1 [| db [| s3 rest]]];
    try (split; [discriminate | intros (uid & db' & seg & segs & _ & H); discriminate]).
  destruct (String.eqb_spec "databases" s1) as [<- | H1]; cbn [andb].
  - destruct (String.eqb_spec "documents" s3) as [<- | H3]; cbn [andb].
    + rewrite catch_all_allowed.
      destruct rest as [| seg segs].
      * cbn [orb].
        destruct (allowed user_document [("database", db)] [] r) eqn:Hu.
        -- apply user_document_allowed in Hu.
           destruct Hu as (user & uid & Hp & _). discriminate.
        -- split; [discriminate |].
           intros (uid & db' & seg & segs & _ & H). discriminate.
      * destruct (auth r) as [uid |] eqn:Hauth; cbn [orb].
        -- split; [| reflexivity]. intros _. exists uid, db, seg, segs. auto.
        -- destruct (allowed user_document [("database", db)] (seg :: segs) r) eqn:Hu.
           ++ apply user_document_allowed in Hu.
              destruct Hu as (user & uid & _ & Hsome & _).
              rewrite Hauth in Hsome. discriminate.
           ++ split; [discriminate |].
              intros (uid & _ & _ & _ & H & _). discriminate.
    + split; [discriminate |].
      intros (uid & db' & seg & segs & _ & H). congruence.
  - split; [discriminate |].
    intros (uid & db' & seg & segs & _ & H). congruence.
Qed.

(** X15.  The block [match /users/{userId}], taken by itself, allows a
    request exactly when the path is [/users/<user>], the requester is
    authenticated, and either the operation is a create or the requester's
    uid is [<user>]. *)
Theorem user_document_block_decision env p r :
  allowed user_document env p r = true <->
  exists user uid,
    p = ["users"; user] /\ auth r = Some uid /\ (op r = OpCreate \/ uid = user).
Proof. apply user_document_allowed. Qed.

(** X16.  The block [match /users/{userId}] never decides a request: the
    file gives every request the decision it would get from
    [match /{document=**}] alone. *)
Theorem user_document_block_never_decides r :
  evaluate rules r =
  evaluate (Block [Lit "databases"; Wild "database"; Lit "documents"] [] [catch_all]) r.
Proof.
  unfold evaluate. rewrite rules_allowed.
  destruct (path r) as [| s1 [| db [| s3 rest]]] eqn:Hpath; cbn [allowed match_prefix].
  - reflexivity.
  - destruct (String.eqb "databases" s1); reflexivity.
  - destruct (String.eqb "databases" s1); reflexivity.
  - destruct (String.eqb "databases" s1); [| reflexivity].
    destruct (String.eqb "documents" s3); [| reflexivity].
    cbn [andb].
    assert (Hsub : allowed user_document [("database", db)] rest r = true ->
                   allowed catch_all [("database", db)] rest r = true).
    { intros Hu. apply user_document_allowed in Hu.
      destruct Hu as (user & uid & -> & Hauth & _).
      rewrite catch_all_allowed, Hauth. reflexivity. }
    destruct (allowed catch_all [("database", db)] rest r) eqn:Hc;
      destruct (allowed user_document [("database", db)] rest r) eqn:Hu;
      destruct rest; try reflexivity; discriminate (Hsub eq_refl).
Qed.

End FirestoreRules.
